(** * domainforge: the domain registry, the admin protocol handler and the
      broadcaster, embedded from [domainforge.go], [main.go] and [utils].

    Go strings are modelled as byte strings ([string] of [ascii]); white
    space is the ASCII set Go's [strings.Fields] and [strings.TrimSpace]
    use on ASCII input (tab, newline, vertical tab, form feed, carriage
    return, space).  A [*bonjour.Server] is a handle number handed out by
    the advertiser; the registry map is a [gmap] from the domain key to
    its record.  Every record pointer is created by one [Add] and stored
    under one key, so updating a record through its pointer is the same as
    updating the map entry. *)

From Stdlib Require Import ZArith Ascii String.
From stdpp Require Import gmap strings list fin_maps pretty.

Local Open Scope Z_scope.

(** ** Strings: [strings.TrimSpace], [strings.Fields], [strconv.Atoi] *)

Module GoStrings.

Definition isSpace (c : ascii) : bool :=
  match nat_of_ascii c with
  | 9%nat | 10%nat | 11%nat | 12%nat | 13%nat | 32%nat => true
  | _ => false
  end.

(* The leading scan of [strings.TrimSpace]. *)
Fixpoint TrimLeft (s : string) : string :=
  match s with
  | EmptyString => EmptyString
  | String c s' => if isSpace c then TrimLeft s' else s
  end.

(* The trailing scan of [strings.TrimSpace]: a suffix made of white
   space only is dropped. *)
Fixpoint TrimRight (s : string) : string :=
  match s with
  | EmptyString => EmptyString
  | String c s' =>
      match TrimRight s' with
      | EmptyString => if isSpace c then EmptyString else String c EmptyString
      | t => String c t
      end
  end.

Definition TrimSpace (s : string) : string := TrimRight (TrimLeft s).

(* [strings.Fields]: the maximal runs of non-space bytes, in order.
   [tok] is the run being read. *)
Fixpoint fields_from (tok : string) (s : string) : list string :=
  match s with
  | EmptyString => match tok with EmptyString => [] | _ => [tok] end
  | String c s' =>
      if isSpace c
      then match tok with
           | EmptyString => fields_from EmptyString s'
           | _ => tok :: fields_from EmptyString s'
           end
      else fields_from (tok +:+ String c EmptyString) s'
  end.

Definition Fields (s : string) : list string := fields_from EmptyString s.

Definition digit_of (c : ascii) : option Z :=
  let n := nat_of_ascii c in
  if ((48 <=? n) && (n <=? 57))%nat then Some (Z.of_nat (n - 48)) else None.

Fixpoint digits_value (acc : Z) (s : string) : option Z :=
  match s with
  | EmptyString => Some acc
  | String c s' =>
      match digit_of c with
      | Some d => digits_value (acc * 10 + d) s'
      | None => None
      end
  end.

Definition dquote : string := String "034"%char EmptyString.

(* The text of the [*strconv.NumError] Atoi returns; the quoting of the
   offending token is the plain one (no escapes). *)
Definition atoi_error (s why : string) : string :=
  "strconv.Atoi: parsing " +:+ dquote +:+ s +:+ dquote +:+ ": " +:+ why.

Definition int_min : Z := - 2 ^ 63.
Definition int_max : Z := 2 ^ 63 - 1.

(* [strconv.Atoi] on a 64-bit platform: an optional sign, then at least
   one decimal digit; the value must fit an [int]. *)
Definition Atoi (s : string) : Z + string :=
  let '(neg, body) :=
    match s with
    | String "-"%char r => (true, r)
    | String "+"%char r => (false, r)
    | _ => (false, s)
    end in
  match body with
  | EmptyString => inr (atoi_error s "invalid syntax")
  | _ =>
      match digits_value 0 body with
      | None => inr (atoi_error s "invalid syntax")
      | Some v =>
          let n := if neg then - v else v in
          if (int_min <=? n) && (n <=? int_max) then inl n
          else inr (atoi_error s "value out of range")
      end
  end.

End GoStrings.
Import GoStrings.

(** ** Data model *)

(* A [*bonjour.Server]: the advertisement handle. *)
Definition Handle : Type := nat.

(* [type Record struct { service, host string; server *bonjour.Server }] *)
Record Record_ : Type := mkRecord {
  service : string;
  host : string;
  server : Handle
}.

(* [utils.Config] *)
Record Config : Type := mkConfig {
  QulesAdmin : string;
  AdminAddress : string
}.

(* What the process does to the outside: advertiser calls, route calls
   and [log] lines, oldest first. *)
Inductive Event : Type :=
| EvRegister (h : Handle) (service host ip : string)
| EvRelease (h : Handle)
| EvRoute (domains : list string) (port : Z) (admin : string)
| EvLog (msg : string).

(* [DomainForge] (the map guarded by [mu]) together with the advertiser's
   side: the handles currently advertised and the next handle it hands
   out. *)
Record State : Type := mkState {
  records : gmap string Record_;
  next_server : Handle;
  live : gset Handle;
  trace : list Event
}.

(* The answers of the collaborators during one operation. [registerProxy]
   and [addQulesServerBlock] answer [None] for success and [Some err] for
   a returned error. *)
Record Env : Type := mkEnv {
  readConfig : Config + string;
  getLocalIP : string + string;
  registerProxy : string -> string -> string -> option string;
  addQulesServerBlock : list string -> Z -> string -> option string
}.

(* How a call ends: it returns, the process exits through [log.Fatalln],
   or it panics. *)
Inductive Outcome (S A : Type) : Type :=
| Returns (a : A) (s : S)
| Fatal (s : S)
| Panics (msg : string).
Arguments Returns {S A} a s.
Arguments Fatal {S A} s.
Arguments Panics {S A} msg.

Definition set_records (f : gmap string Record_ -> gmap string Record_) (s : State) : State :=
  {| records := f (records s); next_server := next_server s;
     live := live s; trace := trace s |}.

Definition emit (ev : Event) (s : State) : State :=
  {| records := records s; next_server := next_server s;
     live := live s; trace := trace s ++ [ev] |}.

(* [log.Printf] / [log.Println] *)
Definition log (msg : string) (s : State) : State := emit (EvLog msg) s.

(* [server.Shutdown()] of the bonjour library: the advertisement is
   withdrawn. *)
Definition release (h : Handle) (s : State) : State :=
  {| records := records s; next_server := next_server s;
     live := live s ∖ {[h]}; trace := trace s ++ [EvRelease h] |}.

(* [bonjour.RegisterProxy("domainforge", service, "", 80, host, ip, ...)] *)
Definition RegisterProxy (e : Env) (svc hst ip : string) (s : State)
  : (Handle * State) + string :=
  match registerProxy e svc hst ip with
  | Some err => inr err
  | None =>
      let h := next_server s in
      inl (h, {| records := records s; next_server := S h;
                 live := {[h]} ∪ live s;
                 trace := trace s ++ [EvRegister h svc hst ip] |})
  end.

(** ** The registry: [domainforge.go] *)

Definition NewDomainForge : State :=
  {| records := ∅; next_server := 0%nat; live := ∅; trace := [] |}.

Definition fullDomain (domain : string) : string := TrimSpace domain +:+ ".local".

(* The keys in the order the [range] visits them. Go leaves the order
   open: the statements below are over every permutation. *)
Definition List (s : State) : list string := (map_to_list (records s)).*1.

Definition Add (e : Env) (domain : string) (port : Z) (s : State)
  : Outcome State (option string) :=
  match readConfig e with
  | inr err => Returns (Some err) s
  | inl config =>
      match getLocalIP e with
      | inr err => Fatal (log ("Error getting local IP: " +:+ err) s)
      | inl localIP =>
          let clean := TrimSpace domain in
          let fullDomain := clean +:+ ".local" in
          match records s !! fullDomain with
          | Some _ =>
              Returns (Some ("domain " +:+ fullDomain +:+ " already registered")) s
          | None =>
              let fullHost := fullDomain +:+ "." in
              let service := "_" +:+ clean +:+ "._tcp" in
              match RegisterProxy e service fullHost localIP s with
              | inr err =>
                  Fatal (log ("Error registering frontend service: " +:+ err) s)
              | inl (s1, st) =>
                  let st := set_records
                              <[fullDomain := mkRecord service fullHost s1]> st in
                  let st := emit (EvRoute [fullDomain] port (QulesAdmin config)) st in
                  match addQulesServerBlock e [fullDomain] port (QulesAdmin config) with
                  | Some err =>
                      let st := release s1 st in
                      let st := set_records (delete domain) st in
                      Returns (Some ("failed to add Qules server block: " +:+ err)) st
                  | None => Returns None st
                  end
              end
          end
      end
  end.

Definition Remove (domain : string) (s : State) : Outcome State (option string) :=
  match records s !! domain with
  | None => Returns (Some ("domain " +:+ domain +:+ " not registered")) s
  | Some record =>
      let st := release (server record) s in
      let st := set_records (delete domain) st in
      let st := log ("Removed domain: " +:+ domain) st in
      Returns None st
  end.

(* The body of [Shutdown]'s [range], over the entries in visiting order. *)
Fixpoint Shutdown_range (l : list (string * Record_)) (s : State) : State :=
  match l with
  | [] => s
  | (domain, rec) :: l' =>
      Shutdown_range l'
        (log ("Shutting down domain: " +:+ domain) (release (server rec) s))
  end.

Definition Shutdown (s : State) : State :=
  Shutdown_range (map_to_list (records s)) s.

(* The body of [broadcastAll]'s [range]. After [log.Fatalln] nothing else
   runs, so the [Printf]/[continue] that follows it in the source is never
   reached. *)
Fixpoint broadcast_range (e : Env) (localIP : string)
    (l : list (string * Record_)) (s : State) : Outcome State unit :=
  match l with
  | [] => Returns tt s
  | (domain, info) :: l' =>
      let st := release (server info) s in
      match RegisterProxy e (service info) (host info) localIP st with
      | inr err =>
          Fatal (log ("Error registering frontend service: " +:+ err) st)
      | inl (srv, st) =>
          broadcast_range e localIP l'
            (set_records <[domain := mkRecord (service info) (host info) srv]> st)
      end
  end.

Definition broadcastAll_in (order : list (string * Record_)) (e : Env) (s : State)
  : Outcome State unit :=
  match getLocalIP e with
  | inr err => Fatal (log ("Error getting local IP: " +:+ err) s)
  | inl localIP => broadcast_range e localIP order s
  end.

Definition broadcastAll (e : Env) (s : State) : Outcome State unit :=
  broadcastAll_in (map_to_list (records s)) e s.

(** ** The admin protocol: [handleConnection] of [main.go] *)

(* The daemon as a connection handler sees it: the registry and the
   [doneChan] of [run], which is either open or closed. *)
Record Daemon : Type := mkDaemon {
  df : State;
  doneChan_closed : bool
}.

Definition usage_add : string := "Invalid command. Usage: add <domain> --port <port>".
Definition usage_remove : string := "Invalid command. Usage: remove <domain>".

(* The lines [handleConnection] writes for the [list] command. *)
Definition list_response (domains : list string) : list string :=
  match domains with
  | [] => ["No domains registered"]
  | _ => "Registered domains:" :: map (fun domain => "- " +:+ domain) domains
  end.

(* A registry call made by the handler: the handler's own state is the
   registry's, and the result picks the line written. *)
Definition with_registry (d : Daemon) (call : Outcome State (option string))
    (ok : string) : Outcome Daemon (list string) :=
  match call with
  | Returns None st => Returns [ok] (mkDaemon st (doneChan_closed d))
  | Returns (Some err) st => Returns ["Error: " +:+ err] (mkDaemon st (doneChan_closed d))
  | Fatal st => Fatal (mkDaemon st (doneChan_closed d))
  | Panics msg => Panics msg
  end.

(* [input] is the line [scanner.Scan] delivers, or [None] when the peer
   closes the connection without sending one. The result is the list of
   lines written to the connection. *)
Definition handleConnection (e : Env) (input : option string) (d : Daemon)
  : Outcome Daemon (list string) :=
  match input with
  | None => Returns [] d
  | Some text =>
      let parts := Fields text in
      match parts with
      | [] => Panics "runtime error: index out of range [0] with length 0"
      | cmd :: _ =>
          if decide (cmd = "add") then
            match parts with
            | [_; domain; flag; p] =>
                if decide (flag = "--port") then
                  match Atoi p with
                  | inr err => Returns ["Invalid port number: " +:+ err] d
                  | inl port =>
                      with_registry d (Add e domain port (df d))
                        ("Added domain: " +:+ domain +:+ " with port: " +:+ pretty port)
                  end
                else Returns [usage_add] d
            | _ => Returns [usage_add] d
            end
          else if decide (cmd = "remove") then
            match parts with
            | [_; domain] =>
                with_registry d (Remove domain (df d)) ("Removed domain: " +:+ domain)
            | _ => Returns [usage_remove] d
            end
          else if decide (cmd = "list") then
            Returns (list_response (List (df d))) d
          else if decide (cmd = "stop") then
            if doneChan_closed d then Panics "close of closed channel"
            else Returns [] (mkDaemon (df d) true)
          else Returns ["Unknown command"] d
      end
  end.

(** ** Sample collaborators and runs *)

Definition defaultConfig : Config :=
  {| QulesAdmin := "http://localhost:1990"; AdminAddress := "localhost:2013" |}.

(* Every collaborator answers. *)
Definition env_ok : Env :=
  {| readConfig := inl defaultConfig;
     getLocalIP := inl "192.168.1.7";
     registerProxy := fun _ _ _ => None;
     addQulesServerBlock := fun _ _ _ => None |}.

(* The reverse proxy refuses the server block. *)
Definition env_route_fails : Env :=
  {| readConfig := inl defaultConfig;
     getLocalIP := inl "192.168.1.7";
     registerProxy := fun _ _ _ => None;
     addQulesServerBlock := fun _ _ _ => Some "connection refused" |}.

(* No interface carries a usable address. *)
Definition env_no_ip : Env :=
  {| readConfig := inl defaultConfig;
     getLocalIP := inr "no suitable local IP address found";
     registerProxy := fun _ _ _ => None;
     addQulesServerBlock := fun _ _ _ => None |}.

Definition hello_record : Record_ :=
  {| service := "_hello._tcp"; host := "hello.local."; server := 0%nat |}.

(* The registry after a successful [Add("hello", 3000)] on a new one. *)
Definition hello_state : State :=
  {| records := {[ "hello.local" := hello_record ]};
     next_server := 1%nat;
     live := {[ 0%nat ]};
     trace := [EvRegister 0%nat "_hello._tcp" "hello.local." "192.168.1.7";
               EvRoute ["hello.local"] 3000 "http://localhost:1990"] |}.

(** ** Lists of keys and traces *)

(* How many entries of [l] are the key [x]. *)
Definition occurrences (x : string) (l : list string) : nat :=
  length (filter (fun y => y = x) l).

#[global] Instance Event_eq_dec : EqDecision Event.
Proof. solve_decision. Defined.

(* What one [Shutdown] adds to the trace: per record, in visiting order,
   the release of its handle and then the log line. *)
Definition shutdown_events (l : list (string * Record_)) : list Event :=
  flat_map (fun '(domain, rec) =>
              [EvRelease (server rec); EvLog ("Shutting down domain: " +:+ domain)]) l.

(* How often the trace releases the handle [h]. *)
Definition releases (h : Handle) (t : list Event) : nat :=
  length (filter (fun ev => ev = EvRelease h) t).


(** ** Sequences of registry operations *)

(* The operations that take [mu]. A [range] over the map visits its
   entries in an order Go does not fix: the order is part of the
   operation. *)
Inductive Op : Type :=
| OpAdd (e : Env) (domain : string) (port : Z)
| OpRemove (domain : string)
| OpTick (e : Env) (order : list (string * Record_))
| OpShutdown (order : list (string * Record_)).

(* The state an operation leaves when it returns; [None] when the process
   ends inside it. *)
Definition run_op (o : Op) (s : State) : option State :=
  match o with
  | OpAdd e domain port =>
      match Add e domain port s with Returns _ s' => Some s' | _ => None end
  | OpRemove domain =>
      match Remove domain s with Returns _ s' => Some s' | _ => None end
  | OpTick e order =>
      match broadcastAll_in order e s with Returns _ s' => Some s' | _ => None end
  | OpShutdown order => Some (Shutdown_range order s)
  end.

(* The order of a [range] lists the entries of the map, each once. *)
Definition order_ok (o : Op) (s : State) : Prop :=
  match o with
  | OpTick _ order | OpShutdown order => order ≡ₚ map_to_list (records s)
  | _ => True
  end.

(* Whether [Add] reaches its rollback branch: every step before the
   server-block call succeeds and that call returns an error. *)
Definition Add_rolls_back (e : Env) (domain : string) (port : Z) (s : State) : bool :=
  match readConfig e, getLocalIP e with
  | inl config, inl localIP =>
      match records s !! fullDomain domain with
      | Some _ => false
      | None =>
          match registerProxy e ("_" +:+ TrimSpace domain +:+ "._tcp")
                  (fullDomain domain +:+ ".") localIP with
          | Some _ => false
          | None =>
              match addQulesServerBlock e [fullDomain domain] port (QulesAdmin config) with
              | Some _ => true
              | None => false
              end
          end
      end
  | _, _ => false
  end.

(* The states a new registry reaches through operations that [allowed]
   admits and that return. *)
Inductive reachable_by (allowed : Op -> State -> Prop) : State -> Prop :=
| reach_new : reachable_by allowed NewDomainForge
| reach_op (s : State) (o : Op) (s' : State) :
    reachable_by allowed s -> allowed o s -> order_ok o s ->
    run_op o s = Some s' -> reachable_by allowed s'.

Definition any_op (o : Op) (s : State) : Prop := True.

(* Every operation but [Shutdown], and every [Add] but the ones that take
   the rollback branch. *)
Definition before_Shutdown (o : Op) (s : State) : Prop :=
  match o with
  | OpAdd e domain port => Add_rolls_back e domain port s = false
  | OpShutdown _ => False
  | _ => True
  end.

(* A record is in the map if and only if its advertisement is live. *)
Definition record_iff_live (s : State) : Prop :=
  (forall k r, records s !! k = Some r -> server r ∈ live s)
  /\ (forall h, h ∈ live s -> exists k r, records s !! k = Some r /\ server r = h).

(* The same, with what makes it inductive: no two records share a handle,
   and the advertiser has handed out every live handle already. *)
Record registry_inv (s : State) : Prop := mk_registry_inv {
  inv_live : forall k r, records s !! k = Some r -> server r ∈ live s;
  inv_owned : forall h, h ∈ live s ->
                exists k r, records s !! k = Some r /\ server r = h;
  inv_inj : forall k1 k2 r1 r2,
              records s !! k1 = Some r1 -> records s !! k2 = Some r2 ->
              server r1 = server r2 -> k1 = k2;
  inv_fresh : forall h, h ∈ live s -> (h < next_server s)%nat
}.

(** ** The resolver: [GetLocalIP] of [utils] *)

Section LocalIP.

(* [net.IP] and the three methods the resolver calls on it. *)
Variable IP : Type.
Variable IsLoopback : IP -> bool.
Variable To4 : IP -> option IP.
Variable IPString : IP -> string.

(* A [net.Addr] as the type switch sees it; the [IP] field of either
   struct may be nil. *)
Inductive Addr : Type :=
| IPNet (ip : option IP)
| IPAddr (ip : option IP)
| OtherAddr.

Definition addr_ip (addr : Addr) : option IP :=
  match addr with
  | IPNet ip => ip
  | IPAddr ip => ip
  | OtherAddr => None
  end.

(* [ip != nil && !ip.IsLoopback() && ip.To4() != nil] *)
Definition usable (addr : Addr) : bool :=
  match addr_ip addr with
  | Some ip => negb (IsLoopback ip) && bool_decide (is_Some (To4 ip))
  | None => false
  end.

Fixpoint GetLocalIP_range (addrs : list Addr) : string + string :=
  match addrs with
  | [] => inr "no suitable local IP address found"
  | addr :: addrs' =>
      match addr_ip addr with
      | Some ip =>
          if negb (IsLoopback ip) && bool_decide (is_Some (To4 ip))
          then inl (IPString ip)
          else GetLocalIP_range addrs'
      | None => GetLocalIP_range addrs'
      end
  end.

(* [interfaces] is what [net.InterfaceAddrs] returns. *)
Definition GetLocalIP (interfaces : list Addr + string) : string + string :=
  match interfaces with
  | inr err => inr err
  | inl addrs => GetLocalIP_range addrs
  end.

End LocalIP.

Arguments IPNet {IP} ip.
Arguments IPAddr {IP} ip.
Arguments OtherAddr {IP}.
Arguments addr_ip {IP} addr.

(** ** The command-line clients: [addCmd] and [removeCmd] of [main.go] *)



(** ** Tokens *)


(* What [Add] derives from the trimmed name. *)
Definition record_of (clean : string) (srv : Handle) : Record_ :=
  mkRecord ("_" +:+ clean +:+ "._tcp") ((clean +:+ ".local") +:+ ".") srv.

(* Every key is a trimmed name followed by [.local], and the record under
   it carries the service and host [Add] derives from that name. *)
Definition keys_derived (s : State) : Prop :=
  forall k r, records s !! k = Some r ->
    exists clean, TrimSpace clean = clean
                  /\ k = clean +:+ ".local"
                  /\ service r = "_" +:+ clean +:+ "._tcp"
                  /\ host r = k +:+ ".".

(* Sample addresses for the resolver: an address is its bytes. *)
Definition bytes_IsLoopback (ip : list N) : bool :=
  match ip with
  | 127%N :: _ => true
  | _ => false
  end.

Definition bytes_To4 (ip : list N) : option (list N) :=
  if decide (length ip = 4%nat) then Some ip else None.

Definition bytes_String (ip : list N) : string :=
  match ip with
  | [a; b; c; d] => pretty a +:+ "." +:+ pretty b +:+ "." +:+ pretty c +:+ "." +:+ pretty d
  | _ => "?"
  end.

Definition sample_addrs : list (Addr (list N)) :=
  [OtherAddr; IPNet (Some [127; 0; 0; 1]%N); IPNet None;
   IPNet (Some [192; 168; 1; 7]%N); IPAddr (Some [10; 0; 0; 2]%N)].
(** * Properties *)

(** ** The string functions and the sample run *)

Example Fields_add : Fields "add hello --port 3000" = ["add"; "hello"; "--port"; "3000"].
Proof. reflexivity. Qed.

Example Fields_blank : Fields "   " = [].
Proof. reflexivity. Qed.

Example TrimSpace_hello : TrimSpace "  hello " = "hello".
Proof. reflexivity. Qed.

Example Atoi_3000 : Atoi "3000" = inl 3000.
Proof. reflexivity. Qed.

Example Atoi_bad : Atoi "30x" = inr (atoi_error "30x" "invalid syntax").
Proof. reflexivity. Qed.

Example Add_hello : Add env_ok "hello" 3000 NewDomainForge = Returns None hello_state.
Proof. reflexivity. Qed.

Example handle_add_hello :
  handleConnection env_ok (Some "add hello --port 3000") (mkDaemon NewDomainForge false)
  = Returns ["Added domain: hello with port: 3000"] (mkDaemon hello_state false).
Proof. reflexivity. Qed.

Example handle_list_hello :
  handleConnection env_ok (Some "list") (mkDaemon hello_state false)
  = Returns ["Registered domains:"; "- hello.local"] (mkDaemon hello_state false).
Proof. vm_compute. reflexivity. Qed.

(** ** Lists of keys *)

Lemma occurrences_absent (x : string) (l : list string) :
  x ∉ l -> occurrences x l = 0%nat.
Proof.
  unfold occurrences. induction l as [|y l IH]; intros Hx; [done|].
  apply not_elem_of_cons in Hx as [Hxy Hl].
  rewrite filter_cons_False by congruence. auto.
Qed.

Lemma occurrences_NoDup (x : string) (l : list string) :
  NoDup l -> x ∈ l -> occurrences x l = 1%nat.
Proof.
  unfold occurrences. induction 1 as [|y l Hy Hnd IH]; intros Hx.
  - by apply elem_of_nil in Hx.
  - destruct (decide (y = x)) as [->|Hne].
    + rewrite filter_cons_True by done. simpl. f_equal.
      by apply occurrences_absent.
    + rewrite filter_cons_False by done.
      apply elem_of_cons in Hx as [Hx|Hx]; [congruence|auto].
Qed.

Lemma occurrences_Permutation (x : string) (l l' : list string) :
  l ≡ₚ l' -> occurrences x l = occurrences x l'.
Proof. unfold occurrences. by intros ->. Qed.

Lemma List_NoDup (s : State) : NoDup (List s).
Proof. apply NoDup_fst_map_to_list. Qed.

Lemma elem_of_List (s : State) (k : string) :
  k ∈ List s <-> is_Some (records s !! k).
Proof.
  unfold List. rewrite list_elem_of_fmap. split.
  - intros [[k' r] [-> Hin]]. apply elem_of_map_to_list in Hin. by exists r.
  - intros [r Hr]. exists (k, r). split; [done|]. by apply elem_of_map_to_list.
Qed.

(** ** Remove on an unknown key *)

(** C9: for every registry state and every key that is not in the map,
    [Remove] returns the error [domain <key> not registered] and the whole
    state is the one before the call: no handle is released (the set of
    live handles and the trace, hence the release events, are the same)
    and the map is the same. *)
Theorem Remove_not_registered (s : State) (domain : string) :
  records s !! domain = None ->
  Remove domain s
  = Returns (Some ("domain " +:+ domain +:+ " not registered")) s.
Proof. intros Hnone. unfold Remove. by rewrite Hnone. Qed.

Lemma Remove_not_registered_witness :
  Remove "nope" hello_state
  = Returns (Some "domain nope not registered") hello_state.
Proof. apply (Remove_not_registered hello_state "nope"). reflexivity. Defined.

Example handle_remove_nope :
  handleConnection env_ok (Some "remove nope") (mkDaemon hello_state false)
  = Returns ["Error: domain nope not registered"] (mkDaemon hello_state false).
Proof. reflexivity. Qed.

(** ** Add on a key already in the map *)

(** C7: when the map already holds [fullDomain name] and both the config
    load and the resolver answer, [Add name port] returns the error
    [domain <fullDomain> already registered], the state is the one before
    the call, and every listing of the keys holds [fullDomain name]
    exactly once. *)
Theorem Add_already_registered (s : State) (e : Env) (name : string) (port : Z)
    (cfg : Config) (ip : string) :
  readConfig e = inl cfg ->
  getLocalIP e = inl ip ->
  is_Some (records s !! fullDomain name) ->
  Add e name port s
  = Returns (Some ("domain " +:+ fullDomain name +:+ " already registered")) s
  /\ forall l, l ≡ₚ List s -> occurrences (fullDomain name) l = 1%nat.
Proof.
  intros Hcfg Hip [r Hr]. split.
  - unfold Add. rewrite Hcfg, Hip. unfold fullDomain in Hr |- *. by rewrite Hr.
  - intros l Hl. rewrite (occurrences_Permutation _ _ _ Hl).
    apply occurrences_NoDup; [apply List_NoDup|].
    apply elem_of_List. by exists r.
Qed.

Lemma Add_already_registered_witness :
  Add env_ok "hello" 3000 hello_state
  = Returns (Some ("domain " +:+ fullDomain "hello" +:+ " already registered")) hello_state
  /\ forall l, l ≡ₚ List hello_state -> occurrences (fullDomain "hello") l = 1%nat.
Proof.
  apply (Add_already_registered hello_state env_ok "hello" 3000
           defaultConfig "192.168.1.7"); [reflexivity | reflexivity |].
  vm_compute. eexists. reflexivity.
Defined.

Example handle_add_hello_twice :
  handleConnection env_ok (Some "add hello --port 3000") (mkDaemon hello_state false)
  = Returns ["Error: domain hello.local already registered"] (mkDaemon hello_state false).
Proof. reflexivity. Qed.

(** ** The stop command *)

(** C10: the [stop] branch closes [doneChan] with no guard. From any
    daemon whose channel is still open, a first [stop] returns without a
    response and leaves the channel closed and the registry as it was; a
    second [stop], on any later connection, then panics with
    [close of closed channel]. *)
Theorem stop_twice_panics (e e' : Env) (d : Daemon) :
  doneChan_closed d = false ->
  handleConnection e (Some "stop") d = Returns [] (mkDaemon (df d) true)
  /\ handleConnection e' (Some "stop") (mkDaemon (df d) true)
     = Panics "close of closed channel".
Proof.
  intros Hopen. split.
  - unfold handleConnection. change (Fields "stop") with ["stop"].
    simpl. by rewrite Hopen.
  - reflexivity.
Qed.

Lemma stop_twice_panics_witness :
  handleConnection env_ok (Some "stop") (mkDaemon hello_state false)
  = Returns [] (mkDaemon hello_state true)
  /\ handleConnection env_ok (Some "stop") (mkDaemon hello_state true)
     = Panics "close of closed channel".
Proof. apply (stop_twice_panics env_ok env_ok (mkDaemon hello_state false)). reflexivity. Defined.

(** ** The key [Add] stores under is never the name it was given *)

Lemma TrimLeft_head (s : string) (c : ascii) (t : string) :
  TrimLeft s = String c t -> isSpace c = false.
Proof.
  induction s as [|a s IH]; simpl; [done|].
  destruct (isSpace a) eqn:Ha; [done|]. congruence.
Qed.

Lemma TrimRight_head (s : string) (c : ascii) (t : string) :
  TrimRight s = String c t -> exists s', s = String c s'.
Proof.
  destruct s as [|a s]; simpl; [done|].
  destruct (TrimRight s); [destruct (isSpace a)|]; intros; simplify_eq; eauto.
Qed.

Lemma TrimSpace_head (s : string) (c : ascii) (t : string) :
  TrimSpace s = String c t -> isSpace c = false.
Proof.
  unfold TrimSpace. intros H. apply TrimRight_head in H as [s' Hs'].
  by apply TrimLeft_head in Hs'.
Qed.

Lemma append_nil_l (u : string) : EmptyString +:+ u = u.
Proof. reflexivity. Qed.

Lemma append_cons (c : ascii) (s u : string) :
  String c s +:+ u = String c (s +:+ u).
Proof. reflexivity. Qed.

Lemma TrimRight_app_blank (s u : string) :
  TrimRight s +:+ u = s -> TrimRight u = EmptyString.
Proof.
  induction s as [|a s IH]; simpl.
  - rewrite append_nil_l. by intros ->.
  - destruct (TrimRight s) as [|b t] eqn:Ht.
    + destruct (isSpace a) eqn:Ha.
      * rewrite append_nil_l. intros ->. simpl. by rewrite Ht, Ha.
      * rewrite append_cons, append_nil_l. by intros [= ->].
    + rewrite append_cons. intros [= H]. by apply IH.
Qed.

Lemma fullDomain_neq (domain : string) : fullDomain domain <> domain.
Proof.
  unfold fullDomain. intros Heq.
  destruct domain as [|c d].
  - discriminate Heq.
  - destruct (isSpace c) eqn:Hc.
    + destruct (TrimSpace (String c d)) as [|c2 t] eqn:Ht.
      * rewrite append_nil_l in Heq. injection Heq as <- _. discriminate Hc.
      * apply TrimSpace_head in Ht. rewrite append_cons in Heq. congruence.
    + unfold TrimSpace in Heq. simpl in Heq. rewrite Hc in Heq.
      apply TrimRight_app_blank in Heq. discriminate Heq.
Qed.

(** ** A failed route synchronisation inside Add *)

(** C1, at the code: when the server-block call fails, [Add] releases the
    new advertisement and returns the wrapped error, but its [delete] is
    keyed by the name as given and not by the key the record was stored
    under: the record stays in the map, with a released handle, and the
    listing holds [fullDomain domain]. *)
Theorem Add_route_failure_keeps_record (s : State) (e : Env) (domain : string)
    (port : Z) (cfg : Config) (ip err : string) :
  readConfig e = inl cfg ->
  getLocalIP e = inl ip ->
  records s !! fullDomain domain = None ->
  registerProxy e ("_" +:+ TrimSpace domain +:+ "._tcp") (fullDomain domain +:+ ".") ip = None ->
  addQulesServerBlock e [fullDomain domain] port (QulesAdmin cfg) = Some err ->
  exists s',
    Add e domain port s
    = Returns (Some ("failed to add Qules server block: " +:+ err)) s'
    /\ (exists r, records s' !! fullDomain domain = Some r
                  /\ server r = next_server s /\ server r ∉ live s')
    /\ EvRelease (next_server s) ∈ trace s'
    /\ fullDomain domain ∈ List s'.
Proof.
  intros Hcfg Hip Hnone Hreg Hroute.
  unfold Add, RegisterProxy. rewrite Hcfg, Hip.
  unfold fullDomain in *. rewrite Hnone, Hreg, Hroute.
  eexists. split; [reflexivity|].
  assert (Hlook : forall r : Record_,
    delete domain (<[TrimSpace domain +:+ ".local" := r]> (records s))
      !! (TrimSpace domain +:+ ".local") = Some r).
  { intros r. rewrite lookup_delete_ne
      by (intros Hd; exact (fullDomain_neq domain (eq_sym Hd))).
    apply lookup_insert_eq. }
  split; [|split].
  - eexists. split; [apply Hlook|]. simpl. split; [done|].
    intros [_ Hn]%elem_of_difference. by apply Hn, elem_of_singleton.
  - simpl. set_solver.
  - apply elem_of_List. simpl. rewrite Hlook. eauto.
Qed.

Lemma Add_route_failure_keeps_record_witness :
  exists s',
    Add env_route_fails "foo" 80 NewDomainForge
    = Returns (Some ("failed to add Qules server block: " +:+ "connection refused")) s'
    /\ (exists r, records s' !! fullDomain "foo" = Some r
                  /\ server r = next_server NewDomainForge /\ server r ∉ live s')
    /\ EvRelease (next_server NewDomainForge) ∈ trace s'
    /\ fullDomain "foo" ∈ List s'.
Proof.
  apply (Add_route_failure_keeps_record NewDomainForge env_route_fails "foo" 80
           defaultConfig "192.168.1.7" "connection refused"); reflexivity.
Defined.

(* The same run, evaluated. *)
Example Add_foo_route_fails :
  Add env_route_fails "foo" 80 NewDomainForge
  = Returns (Some "failed to add Qules server block: connection refused")
      {| records := {[ "foo.local" := mkRecord "_foo._tcp" "foo.local." 0%nat ]};
         next_server := 1%nat;
         live := ∅;
         trace := [EvRegister 0%nat "_foo._tcp" "foo.local." "192.168.1.7";
                   EvRoute ["foo.local"] 80 "http://localhost:1990";
                   EvRelease 0%nat] |}.
Proof. vm_compute. reflexivity. Qed.

(* The rollback [delete] can also hit a record that is not the new one:
   with [hello.local] registered, a failed [Add("hello.local", 80)] drops
   that record, whose advertisement is still live, and keeps the new one,
   whose advertisement it has released. *)
Example Add_rollback_deletes_other_record :
  exists s', Add env_route_fails "hello.local" 80 hello_state
             = Returns (Some "failed to add Qules server block: connection refused") s'
             /\ records s' !! "hello.local" = None
             /\ records s' !! "hello.local.local"
                = Some (mkRecord "_hello.local._tcp" "hello.local.local." 1%nat)
             /\ live s' = {[ 0%nat ]}.
Proof. eexists. split; [reflexivity|]. repeat split; vm_compute; reflexivity. Qed.

(** ** Removing what Add stored *)

Lemma Add_hello_records (e : Env) (s s' : State) :
  records s = ∅ ->
  Add e "hello" 3000 s = Returns None s' ->
  records s' = {[ "hello.local" := mkRecord "_hello._tcp" "hello.local." (next_server s) ]}.
Proof.
  intros Hempty. unfold Add, RegisterProxy.
  change (TrimSpace "hello") with "hello".
  change ("hello" +:+ ".local") with "hello.local".
  destruct (readConfig e); [|done]. destruct (getLocalIP e); [|done].
  rewrite Hempty, lookup_empty.
  destruct (registerProxy _ _ _ _); [done|].
  destruct (addQulesServerBlock _ _ _ _); [done|].
  intros [= <-]. reflexivity.
Qed.

(** C2, at the code: after a successful [Add("hello", 3000)] on an empty
    registry the record is stored under [hello.local], and [Remove] looks
    up the token as it was sent. The command [remove hello] is answered
    with [Error: domain hello not registered], nothing is removed, and
    [list] still shows [hello.local]. *)
Theorem remove_hello_after_add_not_found (e e' : Env) (s s' : State) (closed : bool) :
  records s = ∅ ->
  Add e "hello" 3000 s = Returns None s' ->
  handleConnection e' (Some "remove hello") (mkDaemon s' closed)
  = Returns ["Error: domain hello not registered"] (mkDaemon s' closed)
  /\ handleConnection e' (Some "list") (mkDaemon s' closed)
     = Returns ["Registered domains:"; "- hello.local"] (mkDaemon s' closed).
Proof.
  intros Hempty Hadd. pose proof (Add_hello_records e s s' Hempty Hadd) as Hrec.
  unfold handleConnection. split.
  - change (Fields "remove hello") with ["remove"; "hello"]. simpl.
    unfold Remove. by rewrite Hrec.
  - change (Fields "list") with ["list"]. simpl.
    unfold List. by rewrite Hrec, map_to_list_singleton.
Qed.

Lemma remove_hello_after_add_not_found_witness :
  handleConnection env_ok (Some "remove hello") (mkDaemon hello_state false)
  = Returns ["Error: domain hello not registered"] (mkDaemon hello_state false)
  /\ handleConnection env_ok (Some "list") (mkDaemon hello_state false)
     = Returns ["Registered domains:"; "- hello.local"] (mkDaemon hello_state false).
Proof.
  apply (remove_hello_after_add_not_found env_ok env_ok NewDomainForge hello_state false);
    reflexivity.
Defined.

(* Sent with the key the record is stored under, the command does what
   the scenario describes. *)
Lemma remove_full_key_after_add (e e' : Env) (s s' : State) (closed : bool) :
  records s = ∅ ->
  Add e "hello" 3000 s = Returns None s' ->
  exists s'',
    handleConnection e' (Some "remove hello.local") (mkDaemon s' closed)
    = Returns ["Removed domain: hello.local"] (mkDaemon s'' closed)
    /\ records s'' = ∅
    /\ live s'' = live s' ∖ {[next_server s]}
    /\ handleConnection e' (Some "list") (mkDaemon s'' closed)
       = Returns ["No domains registered"] (mkDaemon s'' closed).
Proof.
  intros Hempty Hadd. pose proof (Add_hello_records e s s' Hempty Hadd) as Hrec.
  unfold handleConnection.
  change (Fields "remove hello.local") with ["remove"; "hello.local"].
  change (Fields "list") with ["list"]. simpl.
  unfold Remove. rewrite Hrec, lookup_singleton_eq. simpl.
  eexists. split; [reflexivity|]. simpl. rewrite Hrec, delete_singleton_eq.
  split; [done|]. split; [done|].
  unfold List. simpl. by rewrite Hrec, delete_singleton_eq, map_to_list_empty.
Qed.

(** ** A resolver failure inside Add *)

(** C5 as the claim states it fails: with no usable address, [Add] does
    not return an error to its caller and the handler writes no [Error]
    line; the process exits through [log.Fatalln]. *)
Lemma Add_resolver_failure_not_returned :
  (forall err s', Add env_no_ip "hello" 3000 NewDomainForge <> Returns (Some err) s')
  /\ handleConnection env_no_ip (Some "add hello --port 3000") (mkDaemon NewDomainForge false)
     = Fatal (mkDaemon (log "Error getting local IP: no suitable local IP address found"
                          NewDomainForge) false).
Proof. split; [intros err s' H; discriminate H | reflexivity]. Qed.

(** C5, amended: when the config load succeeds and the resolver fails,
    [Add] logs [Error getting local IP: <err>] and the process exits
    through [log.Fatalln]. Nothing is returned to the caller, the handler
    writes no response line, and at exit the map and the advertisements
    are the ones before the call. *)
Theorem Add_resolver_failure_fatal (s : State) (e : Env) (name : string) (port : Z)
    (cfg : Config) (err : string) :
  readConfig e = inl cfg ->
  getLocalIP e = inr err ->
  Add e name port s = Fatal (log ("Error getting local IP: " +:+ err) s)
  /\ forall (closed : bool) (ok : string),
       with_registry (mkDaemon s closed) (Add e name port s) ok
       = Fatal (mkDaemon (log ("Error getting local IP: " +:+ err) s) closed).
Proof.
  intros Hcfg Hip.
  assert (H : Add e name port s = Fatal (log ("Error getting local IP: " +:+ err) s)).
  { unfold Add. by rewrite Hcfg, Hip. }
  split; [done|]. intros closed ok. by rewrite H.
Qed.

Lemma Add_resolver_failure_fatal_witness :
  Add env_no_ip "hello" 3000 hello_state
  = Fatal (log ("Error getting local IP: " +:+ "no suitable local IP address found") hello_state)
  /\ forall (closed : bool) (ok : string),
       with_registry (mkDaemon hello_state closed) (Add env_no_ip "hello" 3000 hello_state) ok
       = Fatal (mkDaemon (log ("Error getting local IP: "
                                 +:+ "no suitable local IP address found") hello_state) closed).
Proof.
  apply (Add_resolver_failure_fatal hello_state env_no_ip "hello" 3000 defaultConfig
           "no suitable local IP address found"); reflexivity.
Defined.

(** ** Lines that are not commands *)

(** C6, at the code: a line with no token (empty, or white space only)
    makes [parts[0]] index an empty slice, and the handler panics before
    it writes anything. *)
Theorem handleConnection_blank_line_panics (e : Env) (d : Daemon) (text : string) :
  Fields text = [] ->
  handleConnection e (Some text) d
  = Panics "runtime error: index out of range [0] with length 0".
Proof. intros H. unfold handleConnection. by rewrite H. Qed.

Lemma handleConnection_blank_line_panics_witness :
  handleConnection env_ok (Some "") (mkDaemon hello_state false)
  = Panics "runtime error: index out of range [0] with length 0".
Proof.
  apply (handleConnection_blank_line_panics env_ok (mkDaemon hello_state false) "").
  reflexivity.
Defined.

(* For the other lines the claim describes, the handler answers and the
   daemon is untouched. *)
Lemma handleConnection_unknown (e : Env) (d : Daemon) (text cmd : string)
    (rest : list string) :
  Fields text = cmd :: rest ->
  cmd <> "add" -> cmd <> "remove" -> cmd <> "list" -> cmd <> "stop" ->
  handleConnection e (Some text) d = Returns ["Unknown command"] d.
Proof.
  intros H ? ? ? ?. unfold handleConnection. rewrite H.
  repeat (case_decide; [done|]). done.
Qed.

Lemma handleConnection_malformed_remove (e : Env) (d : Daemon) (text : string)
    (rest : list string) :
  Fields text = "remove" :: rest ->
  length rest <> 1%nat ->
  handleConnection e (Some text) d = Returns [usage_remove] d.
Proof.
  intros H Hlen. unfold handleConnection. rewrite H. simpl.
  destruct rest as [|a [|b rest]]; simpl in *; done.
Qed.


Example handle_add_foo :
  handleConnection env_ok (Some "add foo") (mkDaemon hello_state false)
  = Returns [usage_add] (mkDaemon hello_state false).
Proof. reflexivity. Qed.

Example handle_bogus :
  handleConnection env_ok (Some "bogus") (mkDaemon hello_state false)
  = Returns ["Unknown command"] (mkDaemon hello_state false).
Proof. reflexivity. Qed.

(** ** Shutdown *)

Lemma Shutdown_range_records (l : list (string * Record_)) (s : State) :
  records (Shutdown_range l s) = records s
  /\ next_server (Shutdown_range l s) = next_server s.
Proof.
  revert s. induction l as [|[k r] l IH]; intros s; [done|].
  simpl. by destruct (IH (log ("Shutting down domain: " +:+ k) (release (server r) s))) as [-> ->].
Qed.

Lemma Shutdown_range_trace (l : list (string * Record_)) (s : State) :
  trace (Shutdown_range l s) = trace s ++ shutdown_events l.
Proof.
  revert s. induction l as [|[k r] l IH]; intros s; simpl.
  - by rewrite app_nil_r.
  - rewrite IH. simpl. by rewrite <- !app_assoc.
Qed.

Lemma Shutdown_range_live (l : list (string * Record_)) (s : State) (h : Handle) :
  h ∈ live (Shutdown_range l s) <-> h ∈ live s /\ forall k r, (k, r) ∈ l -> server r <> h.
Proof.
  revert s. induction l as [|[k r] l IH]; intros s; simpl.
  - split; [intros H; split; [done|]; intros ?? []%elem_of_nil | by intros [? _]].
  - rewrite IH. simpl. rewrite elem_of_difference, elem_of_singleton. split.
    + intros [[Hl Hne] Hrest]. split; [done|].
      intros k' r' [[= -> ->]|Hin]%elem_of_cons; [congruence|eauto].
    + intros [Hl Hall]. split; [split; [done|]|].
      * intros Heq. apply (Hall k r); [apply elem_of_cons; by left | done].
      * intros k' r' Hin. apply (Hall k' r'), elem_of_cons. by right.
Qed.


Lemma shutdown_events_elem (l : list (string * Record_)) (k : string) (r : Record_) :
  (k, r) ∈ l ->
  EvRelease (server r) ∈ shutdown_events l
  /\ EvLog ("Shutting down domain: " +:+ k) ∈ shutdown_events l.
Proof.
  induction l as [|[k' r'] l IH]; [by intros ?%elem_of_nil|].
  intros [[= -> ->]|Hin]%elem_of_cons; simpl.
  - split; [by left | right; by left].
  - destruct (IH Hin). split; by do 2 right.
Qed.

(** C3 as the claim states it fails: after [Shutdown] the record of
    [hello.local] is still in the map, and a second [Shutdown] releases
    its handle a second time. *)
Lemma Shutdown_keeps_records_cex :
  records (Shutdown hello_state) <> ∅
  /\ releases 0%nat (trace (Shutdown hello_state)) = 1%nat
  /\ releases 0%nat (trace (Shutdown (Shutdown hello_state))) = 2%nat.
Proof.
  split; [|split; vm_compute; reflexivity].
  intros Hempty.
  assert (H : records (Shutdown hello_state) !! "hello.local" = None)
    by (rewrite Hempty; apply lookup_empty).
  vm_compute in H. discriminate H.
Qed.

(** C3, amended: whatever the visiting order, [Shutdown] releases the
    handle of every record and logs each release, and deletes no record:
    the map after the call is the map before it. A second call therefore
    visits the same records and releases each handle again; the call is a
    no-op exactly when it runs over an empty map. *)
Theorem Shutdown_releases_keeps_records (s : State) (l l2 : list (string * Record_)) :
  l ≡ₚ map_to_list (records s) ->
  l2 ≡ₚ map_to_list (records s) ->
  let s1 := Shutdown_range l s in
  let s2 := Shutdown_range l2 s1 in
  records s1 = records s
  /\ trace s1 = trace s ++ shutdown_events l
  /\ (forall k r, records s !! k = Some r ->
        (server r ∉ live s1)
        /\ EvRelease (server r) ∈ shutdown_events l
        /\ EvLog ("Shutting down domain: " +:+ k) ∈ shutdown_events l)
  /\ (forall h, h ∈ live s1 <->
        h ∈ live s /\ forall k r, records s !! k = Some r -> server r <> h)
  /\ trace s2 = trace s1 ++ shutdown_events l2
  /\ (forall k r, records s !! k = Some r -> EvRelease (server r) ∈ shutdown_events l2)
  /\ (records s = ∅ -> s1 = s).
Proof.
  intros Hl Hl2 s1 s2.
  assert (Hin : forall k r, (k, r) ∈ l <-> records s !! k = Some r).
  { intros k r. rewrite Hl. apply elem_of_map_to_list. }
  assert (Hin2 : forall k r, (k, r) ∈ l2 <-> records s !! k = Some r).
  { intros k r. rewrite Hl2. apply elem_of_map_to_list. }
  assert (Hlive : forall h, h ∈ live s1 <->
             h ∈ live s /\ forall k r, records s !! k = Some r -> server r <> h).
  { intros h. unfold s1. rewrite Shutdown_range_live.
    split; intros [? Hall]; (split; [done|]); intros k r ?; by apply (Hall k r), Hin. }
  split; [apply Shutdown_range_records|].
  split; [apply Shutdown_range_trace|].
  split.
  { intros k r Hr. split; [|by apply shutdown_events_elem, Hin].
    intros [_ Hall]%Hlive. by apply (Hall k r). }
  split; [done|].
  split; [apply Shutdown_range_trace|].
  split; [intros k r Hr; by apply (shutdown_events_elem l2 k r), Hin2|].
  intros Hempty. unfold s1. rewrite Hempty, map_to_list_empty in Hl.
  by apply Permutation_nil_r in Hl as ->.
Qed.

Lemma Shutdown_releases_keeps_records_witness :
  let l := [("hello.local", hello_record)] in
  let s1 := Shutdown_range l hello_state in
  let s2 := Shutdown_range l s1 in
  records s1 = records hello_state
  /\ trace s1 = trace hello_state ++ shutdown_events l
  /\ (forall k r, records hello_state !! k = Some r ->
        (server r ∉ live s1)
        /\ EvRelease (server r) ∈ shutdown_events l
        /\ EvLog ("Shutting down domain: " +:+ k) ∈ shutdown_events l)
  /\ (forall h, h ∈ live s1 <->
        h ∈ live hello_state
        /\ forall k r, records hello_state !! k = Some r -> server r <> h)
  /\ trace s2 = trace s1 ++ shutdown_events l
  /\ (forall k r, records hello_state !! k = Some r -> EvRelease (server r) ∈ shutdown_events l)
  /\ (records hello_state = ∅ -> s1 = hello_state).
Proof.
  apply (Shutdown_releases_keeps_records hello_state
           [("hello.local", hello_record)] [("hello.local", hello_record)]);
    vm_compute; reflexivity.
Defined.

(** ** The broadcaster tick *)

Lemma broadcast_range_returns (e : Env) (ip : string)
    (l : list (string * Record_)) (s : State) :
  (forall svc hst a, registerProxy e svc hst a = None) ->
  exists s', broadcast_range e ip l s = Returns tt s'.
Proof.
  intros Hreg. revert s. induction l as [|[k r] l IH]; intros s; simpl.
  - by exists s.
  - unfold RegisterProxy. rewrite Hreg. apply IH.
Qed.

(* What a tick that returns has done: one handle per visited entry was
   handed out, the keys it did not visit are untouched, and each visited
   key holds its old service and host with one of the new handles. *)
Lemma broadcast_range_frame (e : Env) (ip : string)
    (l : list (string * Record_)) (s s' : State) :
  broadcast_range e ip l s = Returns tt s' ->
  next_server s' = (next_server s + length l)%nat
  /\ (forall k, k ∉ l.*1 -> records s' !! k = records s !! k)
  /\ (NoDup l.*1 -> forall k r, (k, r) ∈ l ->
        exists h, records s' !! k = Some (mkRecord (service r) (host r) h)
                  /\ (next_server s <= h < next_server s')%nat).
Proof.
  revert s. induction l as [|[k0 r0] l IH]; intros s; simpl.
  - intros [= <-]. split; [lia|]. split; [done|].
    intros _ k r Hin. by apply elem_of_nil in Hin.
  - unfold RegisterProxy. destruct (registerProxy e _ _ _); [done|].
    intros Hrun. apply IH in Hrun as (Hnext & Hframe & Hnew). simpl in *.
    split; [lia|]. split.
    + intros k [Hk0 Hk]%not_elem_of_cons.
      rewrite (Hframe k Hk). by apply lookup_insert_ne.
    + intros [Hk0 Hnd]%NoDup_cons k r [[= -> ->]|Hin]%elem_of_cons.
      * exists (next_server s). rewrite (Hframe k0 Hk0), lookup_insert_eq.
        split; [done|lia].
      * destruct (Hnew Hnd k r Hin) as (h & Hh & Hrange).
        exists h. split; [done|lia].
Qed.

(** C8: when the resolver answers and every re-registration succeeds, a
    tick returns, whatever the visiting order; the map has the same keys
    afterwards (every listing is a permutation of the one before), and
    each record keeps its service and host: only its handle changes, to
    one handed out during this tick. *)
Theorem broadcastAll_keeps_names (s : State) (e : Env) (ip : string)
    (l : list (string * Record_)) :
  getLocalIP e = inl ip ->
  (forall svc hst a, registerProxy e svc hst a = None) ->
  l ≡ₚ map_to_list (records s) ->
  exists s',
    broadcastAll_in l e s = Returns tt s'
    /\ dom (records s') = dom (records s)
    /\ List s' ≡ₚ List s
    /\ forall k r, records s !! k = Some r ->
         exists h, records s' !! k = Some (mkRecord (service r) (host r) h)
                   /\ (next_server s <= h < next_server s')%nat.
Proof.
  intros Hip Hreg Hl. unfold broadcastAll_in. rewrite Hip.
  destruct (broadcast_range_returns e ip l s Hreg) as [s' Hrun].
  exists s'. split; [done|].
  apply broadcast_range_frame in Hrun as (Hnext & Hframe & Hnew).
  assert (Hin : forall k r, (k, r) ∈ l <-> records s !! k = Some r).
  { intros k r. rewrite Hl. apply elem_of_map_to_list. }
  assert (Hnd : NoDup l.*1).
  { rewrite Hl. apply NoDup_fst_map_to_list. }
  assert (Hkeys : forall k, is_Some (records s' !! k) <-> is_Some (records s !! k)).
  { intros k. destruct (decide (k ∈ l.*1)) as [Hk|Hk].
    - apply list_elem_of_fmap in Hk as [[k' r] [-> Hkr]]. simpl.
      destruct (Hnew Hnd k' r Hkr) as (h & -> & _).
      apply Hin in Hkr. rewrite Hkr. split; eauto.
    - by rewrite (Hframe k Hk). }
  split; [|split].
  - apply set_eq. intros k. by rewrite !elem_of_dom.
  - apply NoDup_Permutation; [apply List_NoDup..|].
    intros k. by rewrite !elem_of_List.
  - intros k r Hr. apply (Hnew Hnd), Hin, Hr.
Qed.

Lemma broadcastAll_keeps_names_witness :
  exists s',
    broadcastAll_in [("hello.local", hello_record)] env_ok hello_state = Returns tt s'
    /\ dom (records s') = dom (records hello_state)
    /\ List s' ≡ₚ List hello_state
    /\ forall k r, records hello_state !! k = Some r ->
         exists h, records s' !! k = Some (mkRecord (service r) (host r) h)
                   /\ (next_server hello_state <= h < next_server s')%nat.
Proof.
  apply (broadcastAll_keeps_names hello_state env_ok "192.168.1.7"
           [("hello.local", hello_record)]);
    [reflexivity | reflexivity | vm_compute; reflexivity].
Defined.

Example broadcastAll_hello :
  broadcastAll env_ok hello_state
  = Returns tt
      {| records := {[ "hello.local" := mkRecord "_hello._tcp" "hello.local." 1%nat ]};
         next_server := 2%nat;
         live := {[ 1%nat ]};
         trace := trace hello_state
                  ++ [EvRelease 0%nat;
                      EvRegister 1%nat "_hello._tcp" "hello.local." "192.168.1.7"] |}.
Proof. vm_compute. reflexivity. Qed.

(** ** Records and live advertisements *)

Lemma registry_inv_new : registry_inv NewDomainForge.
Proof.
  split; simpl.
  - intros k r H. by rewrite lookup_empty in H.
  - intros h H. by apply not_elem_of_empty in H.
  - intros k1 k2 r1 r2 H. by rewrite lookup_empty in H.
  - intros h H. by apply not_elem_of_empty in H.
Qed.

(* Deleting a record and releasing its handle. *)
Lemma registry_inv_delete (s : State) (k : string) (r : Record_) (t : list Event) :
  registry_inv s ->
  records s !! k = Some r ->
  registry_inv {| records := delete k (records s); next_server := next_server s;
                  live := live s ∖ {[server r]}; trace := t |}.
Proof.
  intros [Hlive Howned Hinj Hfresh] Hk. split; simpl.
  - intros k' r' [Hne Hr']%lookup_delete_Some.
    apply elem_of_difference. split; [by eapply Hlive|].
    intros Heq%elem_of_singleton. apply Hne. symmetry. by eapply Hinj.
  - intros h [Hh Hne]%elem_of_difference.
    destruct (Howned h Hh) as (k' & r' & Hr' & <-).
    exists k', r'. split; [|done]. apply lookup_delete_Some. split; [|done].
    intros <-. apply Hne, elem_of_singleton. congruence.
  - intros k1 k2 r1 r2 [_ H1]%lookup_delete_Some [_ H2]%lookup_delete_Some.
    by eapply Hinj.
  - intros h [Hh _]%elem_of_difference. by apply Hfresh.
Qed.

(* Storing, under a key that holds no record, a record with the handle
   the advertiser hands out next. *)
Lemma registry_inv_insert (s : State) (k svc hst : string) (t : list Event) :
  registry_inv s ->
  records s !! k = None ->
  registry_inv {| records := <[k := mkRecord svc hst (next_server s)]> (records s);
                  next_server := S (next_server s);
                  live := {[next_server s]} ∪ live s; trace := t |}.
Proof.
  intros [Hlive Howned Hinj Hfresh] Hk.
  assert (Hnew : forall k' r', records s !! k' = Some r' -> server r' <> next_server s).
  { intros k' r' Hr' Heq. apply Hlive, Hfresh in Hr'. lia. }
  split; simpl.
  - intros k' r'. destruct (decide (k = k')) as [<-|Hne].
    + rewrite lookup_insert_eq. intros [= <-]. simpl.
      apply elem_of_union_l. by apply elem_of_singleton.
    + rewrite lookup_insert_ne by done. intros Hr'.
      apply elem_of_union_r. by eapply Hlive.
  - intros h [->%elem_of_singleton|Hh]%elem_of_union.
    + eexists k, _. by rewrite lookup_insert_eq.
    + destruct (Howned h Hh) as (k' & r' & Hr' & <-).
      exists k', r'. split; [|done]. rewrite lookup_insert_ne; [done|congruence].
  - intros k1 k2 r1 r2.
    destruct (decide (k = k1)) as [<-|Hne1]; destruct (decide (k = k2)) as [<-|Hne2];
      rewrite ?lookup_insert_eq, ?lookup_insert_ne by done; try done.
    + intros [= <-] H2 Heq. simpl in Heq. by destruct (Hnew k2 r2).
    + intros H1 [= <-] Heq. simpl in Heq. by destruct (Hnew k1 r1).
    + apply Hinj.
  - intros h [->%elem_of_singleton|Hh]%elem_of_union; [lia|].
    apply Hfresh in Hh. lia.
Qed.

(* One round of the broadcaster's loop: the record's handle is released
   and the record gets the next one. *)
Lemma registry_inv_refresh (s : State) (k svc hst : string) (r : Record_)
    (t : list Event) :
  registry_inv s ->
  records s !! k = Some r ->
  registry_inv {| records := <[k := mkRecord svc hst (next_server s)]> (records s);
                  next_server := S (next_server s);
                  live := {[next_server s]} ∪ (live s ∖ {[server r]}); trace := t |}.
Proof.
  intros Hinv Hk.
  pose proof (registry_inv_delete s k r t Hinv Hk) as Hdel.
  apply (registry_inv_insert _ k svc hst t) in Hdel; simpl in Hdel.
  - by rewrite insert_delete_eq in Hdel.
  - apply lookup_delete_eq.
Qed.

Lemma Add_registry_inv (e : Env) (domain : string) (port : Z) (s s' : State)
    (r : option string) :
  registry_inv s ->
  Add_rolls_back e domain port s = false ->
  Add e domain port s = Returns r s' ->
  registry_inv s'.
Proof.
  intros Hinv. unfold Add_rolls_back, Add, RegisterProxy, fullDomain.
  destruct (readConfig e) as [config|]; [|by intros _ [= _ <-]].
  destruct (getLocalIP e) as [localIP|]; [|done].
  destruct (records s !! _) eqn:Hk; [by intros _ [= _ <-]|].
  destruct (registerProxy e _ _ _); [done|].
  destruct (addQulesServerBlock e _ _ _); [done|].
  intros _ [= _ <-]. unfold emit, set_records. simpl.
  by apply registry_inv_insert.
Qed.

Lemma Remove_registry_inv (domain : string) (s s' : State) (r : option string) :
  registry_inv s ->
  Remove domain s = Returns r s' ->
  registry_inv s'.
Proof.
  intros Hinv. unfold Remove.
  destruct (records s !! domain) as [record|] eqn:Hk; [|by intros [= _ <-]].
  intros [= _ <-]. unfold log, emit, set_records, release. simpl.
  by apply registry_inv_delete.
Qed.

Lemma broadcast_range_registry_inv (e : Env) (ip : string)
    (l : list (string * Record_)) (s s' : State) :
  NoDup l.*1 ->
  (forall k r, (k, r) ∈ l -> records s !! k = Some r) ->
  registry_inv s ->
  broadcast_range e ip l s = Returns tt s' ->
  registry_inv s'.
Proof.
  revert s. induction l as [|[k0 r0] l IH]; intros s Hnd Hl Hinv; simpl.
  - by intros [= <-].
  - unfold RegisterProxy. destruct (registerProxy e _ _ _); [done|].
    apply NoDup_cons in Hnd as [Hk0 Hnd].
    apply IH; [done| |].
    + intros k r Hin. simpl. rewrite lookup_insert_ne.
      * apply Hl, elem_of_cons. by right.
      * intros <-. apply Hk0, list_elem_of_fmap. by exists (k0, r).
    + unfold set_records, release. simpl.
      apply registry_inv_refresh; [done|]. apply Hl, elem_of_cons. by left.
Qed.

Lemma run_op_registry_inv (o : Op) (s s' : State) :
  registry_inv s ->
  before_Shutdown o s -> order_ok o s ->
  run_op o s = Some s' ->
  registry_inv s'.
Proof.
  intros Hinv Hallowed Horder. destruct o as [e d p|d|e l|l]; simpl in *.
  - destruct (Add e d p s) as [r s1| |] eqn:Hadd; [|done..].
    intros [= <-]. by eapply Add_registry_inv.
  - destruct (Remove d s) as [r s1| |] eqn:Hrem; [|done..].
    intros [= <-]. by eapply Remove_registry_inv.
  - unfold broadcastAll_in. destruct (getLocalIP e) as [ip|]; [|done].
    destruct (broadcast_range e ip l s) as [[] s1| |] eqn:Hrun; [|done..].
    intros [= <-]. eapply broadcast_range_registry_inv; [| |done|done].
    + rewrite Horder. apply NoDup_fst_map_to_list.
    + intros k r Hin. rewrite Horder in Hin. by apply elem_of_map_to_list.
  - done.
Qed.

Lemma registry_inv_record_iff_live (s : State) :
  registry_inv s -> record_iff_live s.
Proof. intros [Hlive Howned _ _]. by split. Qed.

Lemma hello_state_reachable (allowed : Op -> State -> Prop) :
  allowed (OpAdd env_ok "hello" 3000) NewDomainForge ->
  reachable_by allowed hello_state.
Proof.
  intros Hallowed.
  apply (reach_op allowed NewDomainForge (OpAdd env_ok "hello" 3000) hello_state);
    [apply reach_new | done | done | reflexivity].
Qed.

Lemma reachable_registry_inv (s : State) :
  reachable_by before_Shutdown s -> registry_inv s.
Proof.
  induction 1 as [|s o s' _ IH Hallowed Horder Hrun].
  - apply registry_inv_new.
  - by eapply run_op_registry_inv.
Qed.

(** C4 as the claim states it fails: [Add] followed by [Shutdown] reaches a
    state whose map still holds the record of [hello.local] while its
    handle is released. *)
Lemma record_iff_live_fails_after_Shutdown :
  ~ (forall s, reachable_by any_op s -> record_iff_live s).
Proof.
  intros Hall.
  assert (Hreach : reachable_by any_op
                     (Shutdown_range [("hello.local", hello_record)] hello_state)).
  { apply (reach_op any_op hello_state (OpShutdown [("hello.local", hello_record)]));
      [by apply hello_state_reachable | done | | reflexivity].
    simpl. vm_compute. reflexivity. }
  destruct (Hall _ Hreach) as [Hlive _].
  specialize (Hlive "hello.local" hello_record).
  assert (Hin : server hello_record
                ∈ live (Shutdown_range [("hello.local", hello_record)] hello_state)).
  { apply Hlive. vm_compute. reflexivity. }
  apply Shutdown_range_live in Hin as [_ Hne].
  apply (Hne "hello.local" hello_record); [by left | done].
Qed.

(** C4, amended: in every state a new registry reaches through [Add]
    calls that do not take the rollback branch, [Remove] calls and
    broadcaster ticks, a record is in the map if and only if its
    advertisement is live; moreover no two records share a handle. *)
Theorem record_iff_live_before_Shutdown (s : State) :
  reachable_by before_Shutdown s ->
  record_iff_live s /\ registry_inv s.
Proof.
  intros Hinv%reachable_registry_inv.
  split; [by apply registry_inv_record_iff_live | done].
Qed.

Lemma record_iff_live_before_Shutdown_witness :
  record_iff_live hello_state /\ registry_inv hello_state.
Proof.
  apply (record_iff_live_before_Shutdown hello_state).
  apply (reach_op before_Shutdown NewDomainForge (OpAdd env_ok "hello" 3000) hello_state);
    [apply reach_new | reflexivity | exact I | reflexivity].
Defined.

(* [Shutdown] then releases every live handle and keeps the records. *)
Lemma Shutdown_after_reachable (s : State) (l : list (string * Record_)) :
  reachable_by before_Shutdown s ->
  l ≡ₚ map_to_list (records s) ->
  live (Shutdown_range l s) = ∅ /\ records (Shutdown_range l s) = records s.
Proof.
  intros Hreach Hl. split; [|apply Shutdown_range_records].
  apply reachable_registry_inv in Hreach as [_ Howned _ _].
  apply set_eq. intros h. split; [|by intros ?%not_elem_of_empty].
  intros [Hh Hne]%Shutdown_range_live.
  destruct (Howned h Hh) as (k & r & Hr & Heq).
  destruct (Hne k r); [|done]. rewrite Hl. by apply elem_of_map_to_list.
Qed.

(* The rollback branch of [Add] is the other way out of the equivalence:
   the record it leaves has a released handle. *)
Example rollback_breaks_record_iff_live :
  exists s, run_op (OpAdd env_route_fails "foo" 80) NewDomainForge = Some s
            /\ records s !! "foo.local" = Some (mkRecord "_foo._tcp" "foo.local." 0%nat)
            /\ live s = ∅.
Proof. eexists. split; [reflexivity|]. split; vm_compute; reflexivity. Qed.

(** * Further properties *)

(** ** The resolver *)

Section LocalIP_facts.

Context {IP : Type}.
Variable IsLoopback : IP -> bool.
Variable To4 : IP -> option IP.
Variable IPString : IP -> string.

Lemma GetLocalIP_range_skip (pre rest : list (Addr IP)) :
  (forall a, a ∈ pre -> usable IP IsLoopback To4 a = false) ->
  GetLocalIP_range IP IsLoopback To4 IPString (pre ++ rest)
  = GetLocalIP_range IP IsLoopback To4 IPString rest.
Proof.
  induction pre as [|a pre IH]; intros Hpre; [done|]. simpl.
  pose proof (Hpre a ltac:(by left)) as Ha. unfold usable in Ha.
  destruct (addr_ip a) as [ip|].
  - rewrite Ha. apply IH. intros b Hb. apply Hpre. by right.
  - apply IH. intros b Hb. apply Hpre. by right.
Qed.

(** X1: when the resolver returns an address, it is the text of the first
    entry of the interface list that carries an IP which is not a
    loopback address and has an IPv4 form; every entry before it lacks
    one of the three. *)
Theorem GetLocalIP_returns_first_usable (addrs : list (Addr IP)) (str : string) :
  GetLocalIP IP IsLoopback To4 IPString (inl addrs) = inl str ->
  exists pre addr post ip,
    addrs = pre ++ addr :: post
    /\ (forall a, a ∈ pre -> usable IP IsLoopback To4 a = false)
    /\ addr_ip addr = Some ip
    /\ IsLoopback ip = false
    /\ is_Some (To4 ip)
    /\ str = IPString ip.
Proof.
  simpl. induction addrs as [|a addrs IH]; simpl; [done|].
  destruct (addr_ip a) as [ip|] eqn:Hip.
  - destruct (negb (IsLoopback ip) && bool_decide (is_Some (To4 ip))) eqn:Hok.
    + intros [= <-]. exists [], a, addrs, ip.
      apply andb_true_iff in Hok as [Hl H4].
      apply negb_true_iff in Hl. apply bool_decide_eq_true in H4.
      repeat split; try done. intros b Hb. by apply elem_of_nil in Hb.
    + intros (pre & addr & post & ip' & -> & Hpre & ?)%IH.
      exists (a :: pre), addr, post, ip'. repeat split; try tauto.
      intros b [->|Hb]%elem_of_cons; [|by apply Hpre].
      unfold usable. by rewrite Hip.
  - intros (pre & addr & post & ip' & -> & Hpre & ?)%IH.
    exists (a :: pre), addr, post, ip'. repeat split; try tauto.
    intros b [->|Hb]%elem_of_cons; [|by apply Hpre].
    unfold usable. by rewrite Hip.
Qed.

(** X2: given the interface list, the resolver fails, with
    [no suitable local IP address found], exactly when no entry carries a
    non-loopback IP with an IPv4 form. *)
Theorem GetLocalIP_fails_iff_none_usable (addrs : list (Addr IP)) :
  GetLocalIP IP IsLoopback To4 IPString (inl addrs)
  = inr "no suitable local IP address found"
  <-> forall a, a ∈ addrs -> usable IP IsLoopback To4 a = false.
Proof.
  simpl. split.
  - induction addrs as [|a addrs IH]; simpl.
    + intros _ b Hb. by apply elem_of_nil in Hb.
    + destruct (addr_ip a) as [ip|] eqn:Hip.
      * destruct (negb (IsLoopback ip) && bool_decide (is_Some (To4 ip))) eqn:Hok;
          [done|].
        intros H b [->|Hb]%elem_of_cons; [|by apply IH].
        unfold usable. by rewrite Hip.
      * intros H b [->|Hb]%elem_of_cons; [|by apply IH].
        unfold usable. by rewrite Hip.
  - intros Hall.
    rewrite <- (app_nil_r addrs). by rewrite GetLocalIP_range_skip.
Qed.

End LocalIP_facts.

Lemma GetLocalIP_returns_first_usable_witness :
  exists pre addr post ip,
    sample_addrs = pre ++ addr :: post
    /\ (forall a, a ∈ pre -> usable (list N) bytes_IsLoopback bytes_To4 a = false)
    /\ addr_ip addr = Some ip
    /\ bytes_IsLoopback ip = false
    /\ is_Some (bytes_To4 ip)
    /\ "192.168.1.7" = bytes_String ip.
Proof.
  apply (GetLocalIP_returns_first_usable bytes_IsLoopback bytes_To4 bytes_String
           sample_addrs "192.168.1.7").
  vm_compute. reflexivity.
Defined.

Example GetLocalIP_loopback_only :
  GetLocalIP (list N) bytes_IsLoopback bytes_To4 bytes_String
    (inl [IPNet (Some [127; 0; 0; 1]%N); IPNet (Some [0; 0; 0; 0; 0; 0; 0; 1]%N)])
  = inr "no suitable local IP address found".
Proof. vm_compute. reflexivity. Qed.

(** ** White space and keys *)

Lemma TrimRight_idem (s : string) : TrimRight (TrimRight s) = TrimRight s.
Proof.
  induction s as [|c s IH]; simpl; [done|].
  destruct (TrimRight s) as [|b t] eqn:Ht.
  - destruct (isSpace c) eqn:Hc; simpl; [done|]. by rewrite Hc.
  - simpl in IH. simpl. by rewrite IH.
Qed.

Lemma TrimLeft_TrimSpace (s : string) : TrimLeft (TrimSpace s) = TrimSpace s.
Proof.
  destruct (TrimSpace s) as [|c t] eqn:Ht; [done|].
  apply TrimSpace_head in Ht. simpl. by rewrite Ht.
Qed.

Lemma TrimSpace_idem (s : string) : TrimSpace (TrimSpace s) = TrimSpace s.
Proof.
  unfold TrimSpace at 1. rewrite TrimLeft_TrimSpace.
  unfold TrimSpace. apply TrimRight_idem.
Qed.

(** ** What a successful Add leaves *)

Lemma Add_success_inv (e : Env) (domain : string) (port : Z) (s s' : State) :
  Add e domain port s = Returns None s' ->
  exists config localIP,
    readConfig e = inl config /\ getLocalIP e = inl localIP
    /\ records s !! fullDomain domain = None
    /\ s' = {| records := <[fullDomain domain :=
                              record_of (TrimSpace domain) (next_server s)]> (records s);
               next_server := S (next_server s);
               live := {[next_server s]} ∪ live s;
               trace := (trace s
                         ++ [EvRegister (next_server s) ("_" +:+ TrimSpace domain +:+ "._tcp")
                               (fullDomain domain +:+ ".") localIP])
                        ++ [EvRoute [fullDomain domain] port (QulesAdmin config)] |}.
Proof.
  unfold Add, RegisterProxy, fullDomain, record_of.
  destruct (readConfig e) as [config|]; [|done].
  destruct (getLocalIP e) as [localIP|]; [|done].
  destruct (records s !! _) eqn:Hk; [done|].
  destruct (registerProxy e _ _ _); [done|].
  destruct (addQulesServerBlock e _ _ _); [done|].
  intros [= <-]. by exists config, localIP.
Qed.

(** X3: after an [Add] that returns no error, the map holds, under
    [fullDomain domain], the record derived from the trimmed name with
    the handle just handed out, which is live; every other key is as
    before, and a listing is the old one plus that key, which it holds
    exactly once. *)
Theorem Add_success_listed (e : Env) (domain : string) (port : Z) (s s' : State) :
  Add e domain port s = Returns None s' ->
  records s' !! fullDomain domain
  = Some (record_of (TrimSpace domain) (next_server s))
  /\ next_server s ∈ live s'
  /\ (forall k, k <> fullDomain domain -> records s' !! k = records s !! k)
  /\ List s' ≡ₚ fullDomain domain :: List s
  /\ forall l, l ≡ₚ List s' -> occurrences (fullDomain domain) l = 1%nat.
Proof.
  intros (config & localIP & _ & _ & Hnone & ->)%Add_success_inv. simpl.
  split; [apply lookup_insert_eq|].
  split; [apply elem_of_union_l; by apply elem_of_singleton|].
  split; [intros k Hk; by apply lookup_insert_ne|].
  assert (Hperm : List {| records := <[fullDomain domain :=
                              record_of (TrimSpace domain) (next_server s)]> (records s);
                          next_server := S (next_server s);
                          live := {[next_server s]} ∪ live s;
                          trace := [] |} ≡ₚ fullDomain domain :: List s).
  { unfold List. simpl. by rewrite map_to_list_insert. }
  split; [exact Hperm|].
  intros l Hl. rewrite (occurrences_Permutation _ _ _ Hl).
  apply occurrences_NoDup; [apply List_NoDup|].
  apply elem_of_List. simpl. rewrite lookup_insert_eq. eauto.
Qed.

Lemma Add_success_listed_witness :
  records hello_state !! fullDomain "hello"
  = Some (record_of (TrimSpace "hello") (next_server NewDomainForge))
  /\ next_server NewDomainForge ∈ live hello_state
  /\ (forall k, k <> fullDomain "hello" ->
        records hello_state !! k = records NewDomainForge !! k)
  /\ List hello_state ≡ₚ fullDomain "hello" :: List NewDomainForge
  /\ forall l, l ≡ₚ List hello_state -> occurrences (fullDomain "hello") l = 1%nat.
Proof.
  apply (Add_success_listed env_ok "hello" 3000 NewDomainForge hello_state).
  vm_compute. reflexivity.
Defined.

Lemma releases_app (h : Handle) (t1 t2 : list Event) :
  releases h (t1 ++ t2) = (releases h t1 + releases h t2)%nat.
Proof. unfold releases. by rewrite filter_app, length_app. Qed.

(** X4: [Remove], called with the key a successful [Add] stored under,
    undoes it: it returns no error, the map is the one before the [Add],
    and the handle the [Add] obtained is released, once, and is the only
    change to the set of live handles. *)
Theorem Add_then_Remove_restores (e : Env) (domain : string) (port : Z) (s s' : State) :
  Add e domain port s = Returns None s' ->
  exists s'',
    Remove (fullDomain domain) s' = Returns None s''
    /\ records s'' = records s
    /\ live s'' = live s ∖ {[next_server s]}
    /\ releases (next_server s) (trace s'') = S (releases (next_server s) (trace s)).
Proof.
  intros (config & localIP & _ & _ & Hnone & ->)%Add_success_inv.
  unfold Remove. simpl. rewrite lookup_insert_eq. simpl.
  eexists. split; [reflexivity|]. simpl.
  split; [by apply delete_insert_id|].
  split.
  - apply set_eq. intros h.
    rewrite !elem_of_difference, elem_of_union, elem_of_singleton. tauto.
  - rewrite !releases_app. unfold releases. simpl.
    rewrite filter_cons_True by done. simpl. lia.
Qed.

Lemma Add_then_Remove_restores_witness :
  exists s'',
    Remove (fullDomain "hello") hello_state = Returns None s''
    /\ records s'' = records NewDomainForge
    /\ live s'' = live NewDomainForge ∖ {[next_server NewDomainForge]}
    /\ releases (next_server NewDomainForge) (trace s'')
       = S (releases (next_server NewDomainForge) (trace NewDomainForge)).
Proof.
  apply (Add_then_Remove_restores env_ok "hello" 3000 NewDomainForge hello_state).
  vm_compute. reflexivity.
Defined.

(** ** Remove on a key in the map *)

(** X5: [Remove] on a key the map holds returns no error, deletes that
    key and no other, releases the record's handle and logs the removal;
    the same [Remove] called again finds nothing, returns the
    not-registered error and changes nothing. *)
Theorem Remove_success_then_not_found (s : State) (k : string) (r : Record_) :
  records s !! k = Some r ->
  exists s',
    Remove k s = Returns None s'
    /\ records s' !! k = None
    /\ (forall k', k' <> k -> records s' !! k' = records s !! k')
    /\ live s' = live s ∖ {[server r]}
    /\ trace s' = trace s ++ [EvRelease (server r); EvLog ("Removed domain: " +:+ k)]
    /\ Remove k s' = Returns (Some ("domain " +:+ k +:+ " not registered")) s'.
Proof.
  intros Hk. unfold Remove at 1. rewrite Hk.
  eexists. split; [reflexivity|]. simpl.
  split; [apply lookup_delete_eq|].
  split; [intros k' Hne; by apply lookup_delete_ne|].
  split; [done|].
  split; [by rewrite <- app_assoc|].
  unfold Remove. simpl. by rewrite lookup_delete_eq.
Qed.

Lemma Remove_success_then_not_found_witness :
  exists s',
    Remove "hello.local" hello_state = Returns None s'
    /\ records s' !! "hello.local" = None
    /\ (forall k', k' <> "hello.local" -> records s' !! k' = records hello_state !! k')
    /\ live s' = live hello_state ∖ {[server hello_record]}
    /\ trace s' = trace hello_state
                  ++ [EvRelease (server hello_record);
                      EvLog ("Removed domain: " +:+ "hello.local")]
    /\ Remove "hello.local" s'
       = Returns (Some ("domain " +:+ "hello.local" +:+ " not registered")) s'.
Proof.
  apply (Remove_success_then_not_found hello_state "hello.local" hello_record).
  vm_compute. reflexivity.
Defined.

(** ** Add when something fails *)

(** X6: apart from the rollback branch, an [Add] that does not succeed
    leaves the registry alone. When it returns an error the state is the
    one before the call; when the process exits inside it, the map, the
    live handles and the handle counter are still the ones before the
    call; and [Add] never panics. *)
Theorem Add_failure_leaves_registry (e : Env) (domain : string) (port : Z) (s : State) :
  Add_rolls_back e domain port s = false ->
  (forall err s', Add e domain port s = Returns (Some err) s' -> s' = s)
  /\ (forall s', Add e domain port s = Fatal s' ->
        records s' = records s /\ live s' = live s /\ next_server s' = next_server s)
  /\ (forall msg, Add e domain port s <> Panics msg).
Proof.
  unfold Add_rolls_back, Add, RegisterProxy, fullDomain.
  destruct (readConfig e) as [config|].
  2:{ intros _. split; [by intros err s' [= _ <-]|]. by split. }
  destruct (getLocalIP e) as [localIP|].
  2:{ intros _. split; [done|]. split; [by intros s' [= <-]|done]. }
  destruct (records s !! _) eqn:Hk.
  { intros _. split; [by intros err s' [= _ <-]|]. by split. }
  destruct (registerProxy e _ _ _).
  { intros _. split; [done|]. split; [by intros s' [= <-]|done]. }
  destruct (addQulesServerBlock e _ _ _); [done|].
  intros _. by repeat split.
Qed.

Lemma Add_failure_leaves_registry_witness :
  (forall err s', Add env_no_ip "hello" 3000 hello_state = Returns (Some err) s' ->
                  s' = hello_state)
  /\ (forall s', Add env_no_ip "hello" 3000 hello_state = Fatal s' ->
        records s' = records hello_state /\ live s' = live hello_state
        /\ next_server s' = next_server hello_state)
  /\ (forall msg, Add env_no_ip "hello" 3000 hello_state <> Panics msg).
Proof.
  apply (Add_failure_leaves_registry env_no_ip "hello" 3000 hello_state).
  reflexivity.
Defined.

(** X7: white space around the name does not matter to [Add]: unless the
    call takes the rollback branch, [Add] on a name and [Add] on the
    trimmed name end the same way, in the same state. *)
Theorem Add_trims_name (e : Env) (domain : string) (port : Z) (s : State) :
  Add_rolls_back e domain port s = false ->
  Add e (TrimSpace domain) port s = Add e domain port s.
Proof.
  unfold Add_rolls_back, Add, RegisterProxy, fullDomain.
  rewrite TrimSpace_idem.
  destruct (readConfig e) as [config|]; [|done].
  destruct (getLocalIP e) as [localIP|]; [|done].
  destruct (records s !! _); [done|].
  destruct (registerProxy e _ _ _); [done|].
  by destruct (addQulesServerBlock e _ _ _).
Qed.

Lemma Add_trims_name_witness :
  Add env_ok (TrimSpace "  hello ") 3000 NewDomainForge
  = Add env_ok "  hello " 3000 NewDomainForge.
Proof. apply (Add_trims_name env_ok "  hello " 3000 NewDomainForge). reflexivity. Defined.

(** ** The shape of the keys *)

Lemma keys_derived_records (s s' : State) :
  (forall k r', records s' !! k = Some r' ->
     exists r, records s !! k = Some r /\ service r' = service r /\ host r' = host r) ->
  keys_derived s -> keys_derived s'.
Proof.
  intros Hback Hs k r' Hr'. destruct (Hback k r' Hr') as (r & Hr & -> & ->).
  by apply Hs.
Qed.

Lemma keys_derived_insert (s : State) (domain : string) (srv : Handle) (s' : State) :
  keys_derived s ->
  (forall k r, records s' !! k = Some r ->
     records s !! k = Some r
     \/ (k = fullDomain domain /\ r = record_of (TrimSpace domain) srv)) ->
  keys_derived s'.
Proof.
  intros Hs Hsub k r [Hold|[-> ->]]%Hsub; [by apply Hs|].
  exists (TrimSpace domain). split; [apply TrimSpace_idem|done].
Qed.

Lemma Add_keys_derived (e : Env) (domain : string) (port : Z) (s s' : State)
    (res : option string) :
  keys_derived s -> Add e domain port s = Returns res s' -> keys_derived s'.
Proof.
  intros Hs. unfold Add, RegisterProxy.
  destruct (readConfig e) as [config|]; [|by intros [= _ <-]].
  destruct (getLocalIP e) as [localIP|]; [|done].
  destruct (records s !! _) eqn:Hk; [by intros [= _ <-]|].
  destruct (registerProxy e _ _ _); [done|].
  destruct (addQulesServerBlock e _ _ _); intros [= _ <-];
    apply (keys_derived_insert s domain (next_server s)); try done; simpl.
  - intros k r [_ Hr]%lookup_delete_Some.
    apply lookup_insert_Some in Hr as [[<- <-]|[_ Hr]]; [by right|by left].
  - intros k r [[<- <-]|[_ Hr]]%lookup_insert_Some; [by right|by left].
Qed.

Lemma broadcast_range_backward (e : Env) (ip : string)
    (l : list (string * Record_)) (s s' : State) :
  l ≡ₚ map_to_list (records s) ->
  broadcast_range e ip l s = Returns tt s' ->
  forall k r', records s' !! k = Some r' ->
    exists r, records s !! k = Some r /\ service r' = service r /\ host r' = host r
              /\ (next_server s <= server r')%nat.
Proof.
  intros Hl (Hnext & Hframe & Hnew)%broadcast_range_frame k r' Hr'.
  assert (Hnd : NoDup l.*1) by (rewrite Hl; apply NoDup_fst_map_to_list).
  destruct (decide (k ∈ l.*1)) as [Hk|Hk].
  - apply list_elem_of_fmap in Hk as [[k' r] [-> Hkr]]. simpl in *.
    destruct (Hnew Hnd k' r Hkr) as (h & Hh & Hrange).
    rewrite Hh in Hr'. injection Hr' as <-.
    exists r. split; [|by simpl; repeat split; lia].
    rewrite Hl in Hkr. by apply elem_of_map_to_list.
  - rewrite (Hframe k Hk) in Hr'.
    destruct Hk. apply list_elem_of_fmap. exists (k, r'). split; [done|].
    rewrite Hl. by apply elem_of_map_to_list.
Qed.

Lemma run_op_keys_derived (o : Op) (s s' : State) :
  keys_derived s -> order_ok o s -> run_op o s = Some s' -> keys_derived s'.
Proof.
  intros Hs Horder. destruct o as [e d p|d|e l|l]; simpl in *.
  - destruct (Add e d p s) as [res s1| |] eqn:Hadd; [|done..].
    intros [= <-]. by eapply Add_keys_derived.
  - unfold Remove. destruct (records s !! d) as [record|]; intros [= <-]; [|done].
    intros k r Hr. simpl in Hr. apply lookup_delete_Some in Hr as [_ Hr]. by apply Hs.
  - unfold broadcastAll_in. destruct (getLocalIP e) as [ip|]; [|done].
    destruct (broadcast_range e ip l s) as [[] s1| |] eqn:Hrun; [|done..].
    intros [= <-]. apply (keys_derived_records s); [|done].
    intros k r' Hr'.
    destruct (broadcast_range_backward e ip l s s1 Horder Hrun k r' Hr')
      as (r & ? & ? & ? & _). eauto.
  - intros [= <-]. intros k r. rewrite (proj1 (Shutdown_range_records l s)). apply Hs.
Qed.

Lemma reachable_keys_derived (s : State) :
  reachable_by any_op s -> keys_derived s.
Proof.
  induction 1 as [|s o s' _ IH _ Horder Hrun].
  - intros k r Hr. simpl in Hr. by rewrite lookup_empty in Hr.
  - by eapply run_op_keys_derived.
Qed.

(** X8: whatever operations ran, rollbacks and [Shutdown] included, every
    key of the map is a trimmed name followed by [.local], and its record
    carries the service [_<name>._tcp] and the host [<key>.]. So [Remove]
    on a name that does not end in [.local] always returns the
    not-registered error and changes nothing. *)
Theorem keys_end_in_local (s : State) :
  reachable_by any_op s ->
  keys_derived s
  /\ forall name, (forall clean, name <> clean +:+ ".local") ->
       Remove name s = Returns (Some ("domain " +:+ name +:+ " not registered")) s.
Proof.
  intros Hkeys%reachable_keys_derived. split; [done|].
  intros name Hname. unfold Remove.
  destruct (records s !! name) as [r|] eqn:Hr; [|done].
  destruct (Hkeys name r Hr) as (clean & _ & -> & _). by destruct (Hname clean).
Qed.

Lemma keys_end_in_local_witness :
  keys_derived hello_state
  /\ forall name, (forall clean, name <> clean +:+ ".local") ->
       Remove name hello_state
       = Returns (Some ("domain " +:+ name +:+ " not registered")) hello_state.
Proof.
  apply (keys_end_in_local hello_state).
  apply (reach_op any_op NewDomainForge (OpAdd env_ok "hello" 3000) hello_state);
    [apply reach_new | exact I | exact I | reflexivity].
Defined.

(** ** A tick on a registry in order *)

(** X9: on a registry where every record's handle is live, no two records
    share one and no other handle is live, a tick that returns keeps all
    that true and releases every handle the records held before it: none
    of the old handles is live afterwards. *)
Theorem tick_releases_old_handles (e : Env) (l : list (string * Record_))
    (s s' : State) :
  registry_inv s ->
  l ≡ₚ map_to_list (records s) ->
  broadcastAll_in l e s = Returns tt s' ->
  registry_inv s'
  /\ forall k r, records s !! k = Some r -> server r ∉ live s'.
Proof.
  intros Hinv Hl. unfold broadcastAll_in.
  destruct (getLocalIP e) as [ip|]; [|done]. intros Hrun.
  assert (Hinv' : registry_inv s').
  { eapply broadcast_range_registry_inv; [| |done|done].
    - rewrite Hl. apply NoDup_fst_map_to_list.
    - intros k r Hin. rewrite Hl in Hin. by apply elem_of_map_to_list. }
  split; [done|].
  intros k r Hr Hlive.
  destruct (inv_owned s' Hinv' _ Hlive) as (k' & r' & Hr' & Heq).
  destruct (broadcast_range_backward e ip l s s' Hl Hrun k' r' Hr')
    as (_ & _ & _ & _ & Hge).
  pose proof (inv_fresh s Hinv _ (inv_live s Hinv k r Hr)). lia.
Qed.

Lemma hello_state_registry_inv : registry_inv hello_state.
Proof.
  apply reachable_registry_inv.
  apply (reach_op before_Shutdown NewDomainForge (OpAdd env_ok "hello" 3000) hello_state);
    [apply reach_new | reflexivity | exact I | reflexivity].
Defined.

Lemma tick_releases_old_handles_witness :
  exists s',
    broadcastAll_in [("hello.local", hello_record)] env_ok hello_state = Returns tt s'
    /\ registry_inv s'
    /\ forall k r, records hello_state !! k = Some r -> server r ∉ live s'.
Proof.
  eexists. split; [reflexivity|].
  apply (tick_releases_old_handles env_ok [("hello.local", hello_record)] hello_state);
    [exact hello_state_registry_inv | vm_compute; reflexivity | reflexivity].
Defined.

(** ** Shutdown at the end of a run *)

(** X10: at the end of a run of [Add] calls off the rollback branch,
    [Remove] calls and ticks, [Shutdown] leaves no advertisement live,
    whatever order it visits the records in; the records themselves stay
    in the map and in the listing. *)
Theorem Shutdown_leaves_nothing_live (s : State) (l : list (string * Record_)) :
  reachable_by before_Shutdown s ->
  l ≡ₚ map_to_list (records s) ->
  live (Shutdown_range l s) = ∅
  /\ records (Shutdown_range l s) = records s
  /\ List (Shutdown_range l s) = List s.
Proof.
  intros Hreach Hl.
  destruct (Shutdown_after_reachable s l Hreach Hl) as [Hlive Hrec].
  unfold List. by rewrite Hrec.
Qed.

Lemma Shutdown_leaves_nothing_live_witness :
  live (Shutdown_range [("hello.local", hello_record)] hello_state) = ∅
  /\ records (Shutdown_range [("hello.local", hello_record)] hello_state)
     = records hello_state
  /\ List (Shutdown_range [("hello.local", hello_record)] hello_state)
     = List hello_state.
Proof.
  apply (Shutdown_leaves_nothing_live hello_state [("hello.local", hello_record)]).
  - apply (reach_op before_Shutdown NewDomainForge (OpAdd env_ok "hello" 3000) hello_state);
      [apply reach_new | reflexivity | exact I | reflexivity].
  - vm_compute. reflexivity.
Defined.

(** ** Tokens and lines *)




Lemma append_empty (s t : string) : s +:+ t = EmptyString -> s = EmptyString /\ t = EmptyString.
Proof. destruct s; [by rewrite append_nil_l|by rewrite append_cons]. Qed.








(** ** Decimal numbers *)










(** ** What a connection can and cannot do *)







(** X16: a line whose first token is [list] is answered without touching
    the daemon, whatever follows the token: with [No domains registered]
    exactly when the map is empty, and otherwise with the header and one
    [- <key>] line for every key of the map. *)
Theorem handleConnection_list (e : Env) (d : Daemon) (text : string) (rest : list string) :
  Fields text = "list" :: rest ->
  exists resp,
    handleConnection e (Some text) d = Returns resp d
    /\ (records (df d) = ∅ -> resp = ["No domains registered"])
    /\ (records (df d) <> ∅ ->
          resp = "Registered domains:" :: map (fun k => "- " +:+ k) (List (df d))
          /\ length resp = S (size (records (df d)))
          /\ forall k, is_Some (records (df d) !! k) <-> "- " +:+ k ∈ resp).
Proof.
  intros Hparts. unfold handleConnection. rewrite Hparts. simpl.
  eexists. split; [reflexivity|]. split.
  - intros Hempty. unfold List. by rewrite Hempty, map_to_list_empty.
  - intros Hne.
    assert (Hresp : list_response (List (df d))
                    = "Registered domains:" :: map (fun k => "- " +:+ k) (List (df d))).
    { unfold List. destruct (map_to_list (records (df d))) as [|kr l] eqn:Hl; [|done].
      by apply map_to_list_empty_iff in Hl. }
    rewrite Hresp. split; [done|].
    split.
    { simpl. unfold List. by rewrite length_map, length_fmap, length_map_to_list. }
    intros k. rewrite <- (elem_of_List (df d)). split.
    + intros Hk. right. apply list_elem_of_In, in_map, list_elem_of_In, Hk.
    + intros [Heq|Hin]%elem_of_cons; [discriminate Heq|].
      apply list_elem_of_In, in_map_iff in Hin as (k' & Heq & Hin).
      apply (inj (String.app "- ")) in Heq as ->. by apply list_elem_of_In.
Qed.

Lemma handleConnection_list_witness :
  exists resp,
    handleConnection env_ok (Some "list all") (mkDaemon hello_state false)
    = Returns resp (mkDaemon hello_state false)
    /\ (records hello_state = ∅ -> resp = ["No domains registered"])
    /\ (records hello_state <> ∅ ->
          resp = "Registered domains:" :: map (fun k => "- " +:+ k) (List hello_state)
          /\ length resp = S (size (records hello_state))
          /\ forall k, is_Some (records hello_state !! k) <-> "- " +:+ k ∈ resp).
Proof.
  apply (handleConnection_list env_ok (mkDaemon hello_state false) "list all" ["all"]).
  reflexivity.
Defined.

(** ** From the command line to the registry *)












(** X19: a [remove] line naming a key of the map is answered with
    [Removed domain: <key>]; afterwards the key is gone, every other
    record is as before, and the record's handle is no longer live. *)
Theorem handleConnection_remove_deletes (e : Env) (d : Daemon) (text domain : string)
    (r : Record_) :
  Fields text = ["remove"; domain] ->
  records (df d) !! domain = Some r ->
  exists s',
    handleConnection e (Some text) d
    = Returns ["Removed domain: " +:+ domain] (mkDaemon s' (doneChan_closed d))
    /\ records s' = delete domain (records (df d))
    /\ (server r ∉ live s')
    /\ domain ∉ List s'.
Proof.
  intros Hparts Hr. unfold handleConnection. rewrite Hparts. simpl.
  unfold Remove. rewrite Hr. simpl.
  eexists. split; [reflexivity|]. simpl. split; [done|]. split.
  - intros [_ Hne]%elem_of_difference. by apply Hne, elem_of_singleton.
  - rewrite elem_of_List. simpl. rewrite lookup_delete_eq. by intros [? ?].
Qed.

Lemma handleConnection_remove_deletes_witness :
  exists s',
    handleConnection env_ok (Some "remove hello.local") (mkDaemon hello_state false)
    = Returns ["Removed domain: " +:+ "hello.local"]
        (mkDaemon s' (doneChan_closed (mkDaemon hello_state false)))
    /\ records s' = delete "hello.local" (records (df (mkDaemon hello_state false)))
    /\ (server hello_record ∉ live s')
    /\ "hello.local" ∉ List s'.
Proof.
  apply (handleConnection_remove_deletes env_ok (mkDaemon hello_state false)
           "remove hello.local" "hello.local" hello_record);
    vm_compute; reflexivity.
Defined.

(** ** A host without a usable address *)

Section No_usable_address.

Context {IP : Type}.
Variable IsLoopback : IP -> bool.
Variable To4 : IP -> option IP.
Variable IPString : IP -> string.

(** X18: on a host none of whose interface addresses is a non-loopback
    IPv4 address, a tick ends the process: [broadcastAll] logs the
    resolver's error and exits before it touches a record, so the map and
    every advertisement are as they were; and an [Add], once the config
    is read, ends the process in the same way. *)
Theorem no_usable_address_is_fatal (e : Env) (addrs : list (Addr IP)) :
  getLocalIP e = GetLocalIP IP IsLoopback To4 IPString (inl addrs) ->
  (forall a, a ∈ addrs -> usable IP IsLoopback To4 a = false) ->
  (forall order s,
     broadcastAll_in order e s
     = Fatal (log "Error getting local IP: no suitable local IP address found" s))
  /\ (forall config domain port s,
        readConfig e = inl config ->
        Add e domain port s
        = Fatal (log "Error getting local IP: no suitable local IP address found" s)).
Proof.
  intros Hip Hnone.
  assert (Herr : getLocalIP e = inr "no suitable local IP address found").
  { rewrite Hip. simpl. rewrite <- (app_nil_r addrs).
    by rewrite GetLocalIP_range_skip. }
  split.
  - intros order s. unfold broadcastAll_in. by rewrite Herr.
  - intros config domain port s Hcfg. unfold Add. by rewrite Hcfg, Herr.
Qed.

End No_usable_address.

Lemma no_usable_address_is_fatal_witness :
  (forall order s,
     broadcastAll_in order env_no_ip s
     = Fatal (log "Error getting local IP: no suitable local IP address found" s))
  /\ (forall config domain port s,
        readConfig env_no_ip = inl config ->
        Add env_no_ip domain port s
        = Fatal (log "Error getting local IP: no suitable local IP address found" s)).
Proof.
  apply (no_usable_address_is_fatal bytes_IsLoopback bytes_To4 bytes_String env_no_ip
           [IPNet (Some [127; 0; 0; 1]%N); OtherAddr]).
  - reflexivity.
  - intros a Ha. repeat (apply elem_of_cons in Ha as [->|Ha]; [reflexivity|]).
    by apply elem_of_nil in Ha.
Defined.
